(** * norge-data: the query layer over the county and municipality tables

    A shallow embedding of the accessor, lookup, filter and search functions
    of the package's main module, and the properties of its specification
    settled against it.

    The two tables are read from bundled JSON files that are not part of the
    sources at hand; every function below is therefore parametrised by the
    loaded tables [fylkerData] and [kommunerData]. *)

From Stdlib Require Import QArith Lqa String Ascii DecimalString DecimalN.
From Stdlib Require Import SpecFloat.
From stdpp Require Import list.

Local Open Scope N_scope.
Local Open Scope nat_scope.

(** ** JavaScript strings

    A JavaScript string is a finite sequence of UTF-16 code units; [length],
    indexing, [===], [startsWith], [includes], [padStart] and the regular
    expression [/^0+/] all work on code units. *)

Abbreviation code_unit := N (only parsing).
Abbreviation jsstring := (list N) (only parsing).

(** The code units of an ASCII literal. *)
Definition str (s : string) : jsstring :=
  N_of_ascii <$> list_ascii_of_string s.

(** The code unit of the digit [0]. *)
Definition zero : code_unit := 48%N.

(** [a === b] on two strings. *)
Definition strictEquals (a b : jsstring) : bool := bool_decide (a = b).

(** [s.replace(/^0+/, '')]: the longest run of zeros at the start of [s] is
    removed; a string that does not start with a zero is left as it is. *)
Fixpoint stripLeadingZeros (s : jsstring) : jsstring :=
  match s with
  | [] => []
  | c :: rest => if (c =? zero)%N then stripLeadingZeros rest else s
  end.

(** [s.padStart(targetLength, fill)] for a fill string of one code unit. *)
Definition padStart (targetLength : nat) (fill : code_unit) (s : jsstring)
  : jsstring :=
  replicate (targetLength - length s) fill ++ s.

(** [s.startsWith(searchString)]. *)
Fixpoint startsWith (s searchString : jsstring) {struct searchString}
  : bool :=
  match searchString, s with
  | [], _ => true
  | _ :: _, [] => false
  | c :: searchRest, d :: rest => (c =? d)%N && startsWith rest searchRest
  end.

(** [s.includes(searchString)]: [searchString] starts at some position of
    [s]. *)
Fixpoint includes (s searchString : jsstring) : bool :=
  startsWith s searchString ||
  match s with
  | [] => false
  | _ :: rest => includes rest searchString
  end.

(** A lower-casing of ASCII strings, which is what [toLowerCase] does on
    them.  The query functions take [toLowerCase] as a parameter; this
    instance serves the concrete examples. *)
Definition asciiToLowerCase (s : jsstring) : jsstring :=
  (λ c, if (65 <=? c)%N && (c <=? 90)%N then (c + 32)%N else c) <$> s.

(** ** JavaScript numbers

    The query layer only compares numbers.  A number is NaN, an infinity or
    a finite value, and a finite double is a rational: the comparisons of
    the language agree with those of the values. *)

Inductive number : Type :=
| NaN
| NegInfinity
| Finite (q : Q)
| PosInfinity.

(** The abstract operation Number::lessThan; [None] is its [undefined]. *)
Definition lessThan (x y : number) : option bool :=
  match x, y with
  | NaN, _ | _, NaN => None
  | PosInfinity, _ => Some false
  | _, PosInfinity => Some true
  | _, NegInfinity => Some false
  | NegInfinity, _ => Some true
  | Finite a, Finite b => Some (negb (Qle_bool b a))
  end.

(** [x >= y]: false when [x < y] is true or undefined. *)
Definition greaterThanOrEqual (x y : number) : bool :=
  match lessThan x y with
  | Some false => true
  | _ => false
  end.

(** [x <= y]: false when [y < x] is true or undefined. *)
Definition lessThanOrEqual (x y : number) : bool :=
  match lessThan y x with
  | Some false => true
  | _ => false
  end.

(** The order of the values, for stating bounds: NaN is related to
    nothing. *)
Definition num_le (x y : number) : Prop :=
  match x, y with
  | NaN, _ | _, NaN => False
  | NegInfinity, _ => True
  | _, PosInfinity => True
  | Finite a, Finite b => (a <= b)%Q
  | _, _ => False
  end.

Definition num_lt (x y : number) : Prop := num_le x y ∧ ¬ num_le y x.

(** Arithmetic, which a caller does on a bound before passing it, is that
    of binary64: 53 bits of precision, rounding to nearest, ties to even. *)

(** [x + y] on doubles. *)
Definition double_add (x y : spec_float) : spec_float := SFadd 53 1024 x y.

(** The double of an integer literal. *)
Definition double_of_Z (z : Z) : spec_float :=
  binary_normalize 53 1024 z 0 false.

(** The value of a double, as the comparisons see it. *)
Definition number_of_double (x : spec_float) : number :=
  match x with
  | S754_zero _ => Finite 0
  | S754_infinity false => PosInfinity
  | S754_infinity true => NegInfinity
  | S754_nan => NaN
  | S754_finite s m e =>
      Finite ((if s then -1 else 1) * inject_Z (Z.pos m) * 2 ^ e)
  end.

(** ** Records *)

Record Fylke : Type := {
  f_id : jsstring;
  f_name : jsstring;
  f_url : jsstring
}.

Record Kommune : Type := {
  k_id : jsstring;
  k_name : jsstring;
  k_name_no : jsstring;
  k_adm_center : jsstring;
  k_population : number;
  k_area : number;
  k_language : jsstring;
  k_url : jsstring
}.

(** The argument of [getKommuneByShortId] is a string or a number; the
    numbers are the non-negative integers below 2^53, each of which is a
    double and is printed by [String] as its decimal digits.  Above that
    bound [String] rounds, and from 1e21 it writes an exponent; those
    numbers are left out. *)
Inductive ShortId : Type :=
| IdString (s : jsstring)
| IdNumber (n : N) (safe : (n < 9007199254740992)%N).

(** [String(shortId)]. *)
Definition String_ (shortId : ShortId) : jsstring :=
  match shortId with
  | IdString s => s
  | IdNumber n _ => str (NilZero.string_of_uint (N.to_uint n))
  end.

(** ** Vocabulary of the specification *)

(** [selects P l r]: [r] holds exactly the elements of [l] that satisfy [P],
    in the order of [l]. *)
Inductive selects {A} (P : A → Prop) : list A → list A → Prop :=
| selects_nil : selects P [] []
| selects_keep x l r : P x → selects P l r → selects P (x :: l) (x :: r)
| selects_skip x l r : ¬ P x → selects P l r → selects P (x :: l) r.

(** [first_match P l o]: [o] is the first element of [l] that satisfies [P],
    or [None] when no element does. *)
Inductive first_match {A} (P : A → Prop) : list A → option A → Prop :=
| first_match_nil : first_match P [] None
| first_match_here x l : P x → first_match P (x :: l) (Some x)
| first_match_later x l o :
    ¬ P x → first_match P l o → first_match P (x :: l) o.

(** [substring t s]: [t] occurs in [s] as a block of consecutive code
    units. *)
Definition substring (t s : jsstring) : Prop :=
  ∃ before after, s = before ++ t ++ after.

(** [three_tier padded stripped digits l o]: the three-tier lookup of the
    fuzzy identifier search, as a relation.  [o] is the first record of [l]
    whose identifier is [padded]; when there is none, the first whose
    identifier without its leading zeros is [stripped]; when there is none
    either, the first whose identifier has [digits] as a subsequence, if
    any. *)
Definition three_tier (padded stripped digits : jsstring)
    (l : list Kommune) (o : option Kommune) : Prop :=
  ∃ exact noZeros fallback,
    first_match (λ m, k_id m = padded) l exact ∧
    first_match (λ m, stripLeadingZeros (k_id m) = stripped) l noZeros ∧
    first_match (λ m, digits `sublist_of` k_id m) l fallback ∧
    o = match exact, noZeros with
        | Some _, _ => exact
        | None, Some _ => noZeros
        | None, None => fallback
        end.

(** ** The query layer *)

Section QueryLayer.

(** [String.prototype.toLowerCase]. *)
Variable toLowerCase : jsstring → jsstring.

(** The tables parsed from [data/fylker-2025.json] and
    [data/kommuner-2025.json]. *)
Variable fylkerData : list Fylke.
Variable kommunerData : list Kommune.

Definition getAllFylker : list Fylke := fylkerData.

Definition getAllKommuner : list Kommune := kommunerData.

Definition getFylkeById (id : jsstring) : option Fylke :=
  List.find (λ fylke, strictEquals (f_id fylke) id) fylkerData.

Definition getFylkeByName (name : jsstring) : option Fylke :=
  List.find
    (λ fylke, strictEquals (toLowerCase (f_name fylke)) (toLowerCase name))
    fylkerData.

Definition getKommuneById (id : jsstring) : option Kommune :=
  List.find (λ kommune, strictEquals (k_id kommune) id) kommunerData.

Definition getKommuneByName (name : jsstring) : option Kommune :=
  List.find
    (λ kommune,
       strictEquals (toLowerCase (k_name kommune)) (toLowerCase name) ||
       strictEquals (toLowerCase (k_name_no kommune)) (toLowerCase name))
    kommunerData.

(** The [while] loop of the subsequence check.  Every turn advances
    [kommuneIndex], so [length kommuneId] turns are enough; [fuel] bounds
    the number of turns. *)
Fixpoint subsequenceLoop (fuel : nat) (searchId kommuneId : jsstring)
    (searchIndex kommuneIndex : nat) : nat * nat :=
  match fuel with
  | 0 => (searchIndex, kommuneIndex)
  | S fuel' =>
      if bool_decide (searchIndex < length searchId) &&
         bool_decide (kommuneIndex < length kommuneId)
      then
        let searchIndex' :=
          if bool_decide
               (searchId !! searchIndex = kommuneId !! kommuneIndex)
          then S searchIndex else searchIndex in
        subsequenceLoop fuel' searchId kommuneId searchIndex'
          (S kommuneIndex)
      else (searchIndex, kommuneIndex)
  end.

(** The callback of the last [find] of [getKommuneByShortId]. *)
Definition subsequenceCheck (searchId kommuneId : jsstring) : bool :=
  let searchIndex :=
    fst (subsequenceLoop (length kommuneId) searchId kommuneId 0 0) in
  bool_decide (searchIndex = length searchId).

Definition getKommuneByShortId (shortId : ShortId) : option Kommune :=
  let searchId := stripLeadingZeros (String_ shortId) in
  let paddedId := padStart 4 zero searchId in
  match
    List.find (λ kommune, strictEquals (k_id kommune) paddedId) kommunerData
  with
  | Some exactMatch => Some exactMatch
  | None =>
      match
        List.find
          (λ kommune,
             strictEquals (stripLeadingZeros (k_id kommune)) searchId)
          kommunerData
      with
      | Some noZerosMatch => Some noZerosMatch
      | None =>
          List.find (λ kommune, subsequenceCheck searchId (k_id kommune))
            kommunerData
      end
  end.

Definition getKommunerByLanguage (language : jsstring) : list Kommune :=
  List.filter
    (λ kommune,
       strictEquals (toLowerCase (k_language kommune))
         (toLowerCase language))
    kommunerData.

Definition getKommunerInFylke (fylkeId : jsstring) : list Kommune :=
  List.filter (λ kommune, startsWith (k_id kommune) fylkeId) kommunerData.

Definition getKommunerByPopulation (min max : number) : list Kommune :=
  List.filter
    (λ kommune,
       greaterThanOrEqual (k_population kommune) min &&
       lessThanOrEqual (k_population kommune) max)
    kommunerData.

Definition getKommunerByArea (min max : number) : list Kommune :=
  List.filter
    (λ kommune,
       greaterThanOrEqual (k_area kommune) min &&
       lessThanOrEqual (k_area kommune) max)
    kommunerData.

Definition searchKommunerByName (nameFragment : jsstring) : list Kommune :=
  let searchTerm := toLowerCase nameFragment in
  List.filter
    (λ kommune,
       includes (toLowerCase (k_name kommune)) searchTerm ||
       includes (toLowerCase (k_name_no kommune)) searchTerm)
    kommunerData.

Definition searchFylkerByName (nameFragment : jsstring) : list Fylke :=
  let searchTerm := toLowerCase nameFragment in
  List.filter
    (λ fylke, includes (toLowerCase (f_name fylke)) searchTerm)
    fylkerData.

End QueryLayer.

(** ** Sample tables *)

Definition mkFylke (id name : string) : Fylke :=
  {| f_id := str id; f_name := str name; f_url := [] |}.

Definition mkKommune (id name name_no : string) (population area : Q)
  : Kommune :=
  {| k_id := str id; k_name := str name; k_name_no := str name_no;
     k_adm_center := str name; k_population := Finite population;
     k_area := Finite area; k_language := str "Bokmal"; k_url := [] |}.

Definition oslo : Kommune :=
  mkKommune "0301" "Oslo" "Oslo" 717710 (45414 # 100).

Definition sauda : Kommune :=
  mkKommune "1135" "Sauda" "Sauda" 4500 (54627 # 100).

Definition bergen : Kommune :=
  mkKommune "4601" "Bergen" "Bergen" 291940 (46457 # 100).

Definition halden : Kommune :=
  mkKommune "3101" "Halden" "Halden" 31000 (64226 # 100).

Definition kristiansund : Kommune :=
  mkKommune "1505" "Kristiansund" "Kristiansund" 24000 (8700 # 100).

Definition sampleFylker : list Fylke :=
  [mkFylke "03" "Oslo"; mkFylke "11" "Rogaland"; mkFylke "31" "Ostfold";
   mkFylke "46" "Vestland"].

Definition sampleKommuner : list Kommune := [oslo; sauda; halden; bergen].


(** * Properties *)

(** ** Arrays: [find] and [filter] against the specification vocabulary *)

Section Arrays.
Context {A : Type} (P : A → Prop) (p : A → bool).
Hypothesis p_spec : ∀ x, p x = true ↔ P x.

Lemma find_first_match (l : list A) : first_match P l (List.find p l).
Proof.
  induction l as [|x l IH]; simpl; [constructor|].
  destruct (p x) eqn:Hpx.
  - apply first_match_here, p_spec, Hpx.
  - apply first_match_later; [|exact IH].
    rewrite <- p_spec, Hpx. discriminate.
Qed.

Lemma filter_selects (l : list A) : selects P l (List.filter p l).
Proof.
  induction l as [|x l IH]; simpl; [constructor|].
  destruct (p x) eqn:Hpx.
  - apply selects_keep; [apply p_spec, Hpx | exact IH].
  - apply selects_skip; [|exact IH].
    rewrite <- p_spec, Hpx. discriminate.
Qed.

End Arrays.

Lemma first_match_unique {A} (P : A → Prop) l o1 o2 :
  first_match P l o1 → first_match P l o2 → o1 = o2.
Proof.
  induction 1 as [|x l HP|x l o HnP _ IH]; inversion 1; subst;
    try done; auto.
Qed.

Lemma selects_unique {A} (P : A → Prop) l r1 r2 :
  selects P l r1 → selects P l r2 → r1 = r2.
Proof.
  intros H1. revert r2.
  induction H1 as [|x l r HP _ IH|x l r HnP _ IH]; inversion 1; subst;
    try done; auto.
  f_equal. auto.
Qed.

Lemma first_match_None {A} (P : A → Prop) l :
  first_match P l None ↔ ∀ x, x ∈ l → ¬ P x.
Proof.
  split.
  - intros H. remember None as o eqn:Ho.
    induction H as [| |x l o HnP _ IH]; [by inversion 1|done|].
    intros y [->|Hy]%elem_of_cons; auto.
  - induction l as [|x l IH]; intros H; [constructor|].
    apply first_match_later.
    + apply H. left.
    + apply IH. intros y Hy. apply H. by right.
Qed.

Lemma first_match_Some {A} (P : A → Prop) l x :
  first_match P l (Some x) ↔
  ∃ before after, l = before ++ x :: after ∧ P x ∧ ∀ y, y ∈ before → ¬ P y.
Proof.
  split.
  - intros H. remember (Some x) as o eqn:Ho.
    induction H as [|y l HP|y l o HnP _ IH]; [done| |].
    + injection Ho as ->. exists [], l. split_and!; [done..|].
      by intros ? ?%elem_of_nil.
    + destruct (IH Ho) as (before & after & -> & HPx & Hbefore).
      exists (y :: before), after. split_and!; [done..|].
      intros z [->|Hz]%elem_of_cons; auto.
  - intros (before & after & -> & HPx & Hbefore).
    induction before as [|y before IH]; simpl.
    + by apply first_match_here.
    + apply first_match_later.
      * apply Hbefore. left.
      * apply IH. intros z Hz. apply Hbefore. by right.
Qed.

Lemma selects_all {A} (P : A → Prop) l :
  (∀ x, x ∈ l → P x) → selects P l l.
Proof.
  induction l as [|x l IH]; intros H; [constructor|].
  apply selects_keep; [apply H; left|].
  apply IH. intros y Hy. apply H. by right.
Qed.

Lemma selects_none {A} (P : A → Prop) l :
  (∀ x, x ∈ l → ¬ P x) → selects P l [].
Proof.
  induction l as [|x l IH]; intros H; [constructor|].
  apply selects_skip; [apply H; left|].
  apply IH. intros y Hy. apply H. by right.
Qed.

Lemma selects_elem_of {A} (P : A → Prop) l r x :
  selects P l r → x ∈ r ↔ x ∈ l ∧ P x.
Proof.
  induction 1 as [|y l r HP _ IH|y l r HnP _ IH].
  - split; [by intros ?%elem_of_nil | by intros [?%elem_of_nil _]].
  - rewrite !elem_of_cons, IH. split.
    + intros [->|[? ?]]; split; auto.
    + intros [[->|?] ?]; auto.
  - rewrite elem_of_cons, IH. split.
    + intros [? ?]; split; auto.
    + intros [[->|?] ?]; [contradiction|auto].
Qed.

Lemma selects_sublist {A} (P : A → Prop) l r :
  selects P l r → r `sublist_of` l.
Proof. induction 1; by constructor. Qed.

(** ** Strings *)

Lemma strictEquals_spec (a b : jsstring) : strictEquals a b = true ↔ a = b.
Proof. unfold strictEquals. apply bool_decide_eq_true. Qed.

Lemma startsWith_spec (s searchString : jsstring) :
  startsWith s searchString = true ↔ searchString `prefix_of` s.
Proof.
  revert s. induction searchString as [|c t IH]; intros s; simpl.
  - split; [intros _; apply prefix_nil | reflexivity].
  - destruct s as [|d s].
    + split; [discriminate | intros H; by apply prefix_nil_inv in H].
    + rewrite andb_true_iff, N.eqb_eq, IH. split.
      * intros [-> H]. by apply prefix_cons.
      * intros H. split; [by apply prefix_cons_inv_1 in H
                         | by apply prefix_cons_inv_2 in H].
Qed.

Lemma includes_spec (s searchString : jsstring) :
  includes s searchString = true ↔ substring searchString s.
Proof.
  unfold substring. induction s as [|d s IH]; simpl.
  - rewrite orb_false_r, startsWith_spec. split.
    + intros [k ->]. by exists [], k.
    + intros (before & after & H). symmetry in H.
      apply app_eq_nil in H as [-> [-> ->]%app_eq_nil]. done.
  - rewrite orb_true_iff, startsWith_spec, IH. split.
    + intros [[k ->]|(before & after & ->)].
      * by exists [], k.
      * by exists (d :: before), after.
    + intros ([|e before] & after & H); simpl in H.
      * left. by exists after.
      * right. injection H as -> ->. by exists before, after.
Qed.

Lemma includes_empty (s : jsstring) : includes s [] = true.
Proof. apply includes_spec. by exists [], s. Qed.

Lemma startsWith_empty (s : jsstring) : startsWith s [] = true.
Proof. done. Qed.

(** What the regular expression removes is a run of zeros, and what is left
    does not start with a zero. *)
Lemma stripLeadingZeros_spec (s : jsstring) :
  ∃ n, s = replicate n zero ++ stripLeadingZeros s ∧
       head (stripLeadingZeros s) ≠ Some zero.
Proof.
  induction s as [|c s (n & Hs & Hhead)]; simpl.
  - by exists 0.
  - destruct (N.eqb_spec c zero) as [->|Hc].
    + exists (S n). simpl. by rewrite <- Hs.
    + exists 0. split; [done|]. simpl. congruence.
Qed.

Lemma stripLeadingZeros_replicate n (s : jsstring) :
  stripLeadingZeros (replicate n zero ++ s) = stripLeadingZeros s.
Proof. induction n as [|n IH]; simpl; [done|exact IH]. Qed.

Lemma stripLeadingZeros_zeros n : stripLeadingZeros (replicate n zero) = [].
Proof.
  rewrite <- (app_nil_r (replicate n zero)).
  by rewrite stripLeadingZeros_replicate.
Qed.

Lemma stripLeadingZeros_nil_inv (s : jsstring) :
  stripLeadingZeros s = [] → s = replicate (length s) zero.
Proof.
  destruct (stripLeadingZeros_spec s) as (n & Hs & _). intros Hnil.
  rewrite Hnil, app_nil_r in Hs. rewrite Hs at 1.
  by rewrite Hs, length_replicate.
Qed.

(** Padding the stripped string gives back the padded string as long as the
    string is not longer than the target. *)
Lemma padStart_stripLeadingZeros n (s : jsstring) :
  length s ≤ n →
  padStart n zero (stripLeadingZeros s) = padStart n zero s.
Proof.
  destruct (stripLeadingZeros_spec s) as (m & Hs & _).
  set (t := stripLeadingZeros s) in *. clearbody t. subst s.
  rewrite length_app, length_replicate. intros Hlen.
  unfold padStart. rewrite length_app, length_replicate, app_assoc.
  rewrite <- replicate_add. do 2 f_equal. lia.
Qed.

(** ** Numbers *)

Lemma greaterThanOrEqual_spec (x y : number) :
  greaterThanOrEqual x y = true ↔ num_le y x.
Proof.
  unfold greaterThanOrEqual.
  destruct x as [| |a|], y as [| |b|]; simpl; try done.
  rewrite <- Qle_bool_iff. by destruct (Qle_bool b a).
Qed.

Lemma lessThanOrEqual_spec (x y : number) :
  lessThanOrEqual x y = true ↔ num_le x y.
Proof.
  unfold lessThanOrEqual.
  destruct x as [| |a|], y as [| |b|]; simpl; try done.
  rewrite <- Qle_bool_iff. by destruct (Qle_bool a b).
Qed.

Lemma in_range_spec (x min max : number) :
  greaterThanOrEqual x min && lessThanOrEqual x max = true ↔
  num_le min x ∧ num_le x max.
Proof.
  by rewrite andb_true_iff, greaterThanOrEqual_spec, lessThanOrEqual_spec.
Qed.

Lemma num_le_trans (x y z : number) : num_le x y → num_le y z → num_le x z.
Proof.
  destruct x as [| |a|], y as [| |b|], z as [| |c|]; simpl; try done.
  apply Qle_trans.
Qed.

Lemma num_le_PosInfinity (x y : number) : num_le y x → num_le x PosInfinity.
Proof. by destruct x, y. Qed.

(** ** The subsequence loop *)

(** With [length kommuneId] turns of fuel the loop stops because its
    condition fails, not because the fuel is used up. *)
Lemma subsequenceLoop_exits fuel (searchId kommuneId : jsstring) i j :
  length kommuneId - j ≤ fuel →
  let '(i', j') := subsequenceLoop fuel searchId kommuneId i j in
  ¬ (i' < length searchId ∧ j' < length kommuneId).
Proof.
  revert i j. induction fuel as [|fuel IH]; intros i j Hfuel; simpl.
  - lia.
  - destruct (bool_decide (i < length searchId)) eqn:Hi;
      destruct (bool_decide (j < length kommuneId)) eqn:Hj; simpl;
      try (apply bool_decide_eq_false in Hi);
      try (apply bool_decide_eq_false in Hj); try lia.
    apply IH. lia.
Qed.

(** More fuel than that changes nothing. *)
Lemma subsequenceLoop_fuel fuel fuel' (searchId kommuneId : jsstring) i j :
  length kommuneId - j ≤ fuel → fuel ≤ fuel' →
  subsequenceLoop fuel' searchId kommuneId i j =
  subsequenceLoop fuel searchId kommuneId i j.
Proof.
  revert fuel' i j. induction fuel as [|fuel IH]; intros fuel' i j H1 H2.
  - destruct fuel' as [|fuel']; simpl; [done|].
    rewrite (bool_decide_eq_false_2 (j < length kommuneId)) by lia.
    by rewrite andb_false_r.
  - destruct fuel' as [|fuel']; [lia|]. simpl.
    destruct (_ && _); [|done]. apply IH; lia.
Qed.

(** The loop started at [(i, j)] ends with the whole of [searchId] consumed
    exactly when what is left of [searchId] is a subsequence of what is left
    of [kommuneId]. *)
Lemma subsequenceLoop_sublist fuel (searchId kommuneId : jsstring) i j :
  i ≤ length searchId → length kommuneId - j ≤ fuel →
  fst (subsequenceLoop fuel searchId kommuneId i j) = length searchId ↔
  drop i searchId `sublist_of` drop j kommuneId.
Proof.
  revert i j. induction fuel as [|fuel IH]; intros i j Hi Hfuel; simpl.
  - rewrite (drop_ge kommuneId j) by lia. rewrite sublist_nil_r. split.
    + intros ->. by apply drop_ge.
    + intros H. apply (f_equal length) in H.
      rewrite length_drop in H. simpl in H. lia.
  - destruct (decide (i < length searchId)) as [Hi'|Hi'].
    2:{ rewrite (bool_decide_eq_false_2 _ Hi'). simpl.
        rewrite (drop_ge searchId i) by lia.
        split; [intros _; apply sublist_nil_l | lia]. }
    rewrite (bool_decide_eq_true_2 _ Hi'). simpl.
    destruct (decide (j < length kommuneId)) as [Hj|Hj].
    2:{ rewrite (bool_decide_eq_false_2 _ Hj). simpl.
        rewrite (drop_ge kommuneId j) by lia. rewrite sublist_nil_r. split.
        - lia.
        - intros H. apply (f_equal length) in H.
          rewrite length_drop in H. simpl in H. lia. }
    rewrite (bool_decide_eq_true_2 _ Hj).
    destruct (lookup_lt_is_Some_2 searchId i Hi') as [c Hc].
    destruct (lookup_lt_is_Some_2 kommuneId j Hj) as [d Hd].
    rewrite (drop_S _ _ _ Hc), (drop_S _ _ _ Hd), Hc, Hd.
    case_bool_decide as Hcd.
    + injection Hcd as ->. rewrite IH by lia. split.
      * apply sublist_skip.
      * intros [H|(l' & [= <-] & H)]%sublist_cons_r; [|done].
        etrans; [|exact H]. by apply sublist_cons.
    + rewrite IH by lia. rewrite (drop_S _ _ _ Hc). split.
      * apply sublist_cons.
      * intros [H|(l' & [= -> _] & _)]%sublist_cons_r; [done|].
        by destruct Hcd.
Qed.

Lemma subsequenceCheck_spec (searchId kommuneId : jsstring) :
  subsequenceCheck searchId kommuneId = true ↔
  searchId `sublist_of` kommuneId.
Proof.
  unfold subsequenceCheck. rewrite bool_decide_eq_true.
  apply (subsequenceLoop_sublist _ searchId kommuneId 0 0); lia.
Qed.

Lemma subsequenceCheck_empty (kommuneId : jsstring) :
  subsequenceCheck [] kommuneId = true.
Proof. apply subsequenceCheck_spec, sublist_nil_l. Qed.

(** ** Exact lookup by identifier *)

(** In a list without repeated keys, looking up the key of a member finds
    that member. *)
Lemma find_unique_key {A} (key : A → jsstring) (l : list A) (x : A) :
  NoDup (key <$> l) → x ∈ l →
  List.find (λ y, strictEquals (key y) (key x)) l = Some x.
Proof.
  induction l as [|y l IH]; simpl; intros Hnodup Hx.
  - by apply elem_of_nil in Hx.
  - apply NoDup_cons in Hnodup as [Hy Hnodup].
    unfold strictEquals at 1. case_bool_decide as Hkey.
    + apply elem_of_cons in Hx as [->|Hx]; [done|].
      destruct Hy. rewrite Hkey. by apply list_elem_of_fmap_2.
    + apply elem_of_cons in Hx as [->|Hx]; [done|]. by apply IH.
Qed.

Lemma find_none {A} (p : A → bool) (l : list A) :
  (∀ x, x ∈ l → p x = false) → List.find p l = None.
Proof.
  induction l as [|y l IH]; simpl; intros H; [done|].
  rewrite (H y) by left. apply IH. intros x Hx. apply H. by right.
Qed.

Lemma filter_all {A} (p : A → bool) (l : list A) :
  (∀ x, x ∈ l → p x = true) → List.filter p l = l.
Proof.
  induction l as [|y l IH]; simpl; intros H; [done|].
  rewrite (H y) by left. f_equal. apply IH. intros x Hx. apply H. by right.
Qed.

Lemma filter_none {A} (p : A → bool) (l : list A) :
  (∀ x, x ∈ l → p x = false) → List.filter p l = [].
Proof.
  induction l as [|y l IH]; simpl; intros H; [done|].
  rewrite (H y) by left. apply IH. intros x Hx. apply H. by right.
Qed.

(** C3: when the identifiers of a table are unique, looking up the
    identifier of any of its records returns that very record: for every
    county [c] of the county table [getFylkeById (f_id c)] is [c], and for
    every municipality [m] of the municipality table
    [getKommuneById (k_id m)] is [m]. *)
Theorem lookup_by_id_round_trip
    (fylkerData : list Fylke) (kommunerData : list Kommune) :
  NoDup (f_id <$> fylkerData) →
  NoDup (k_id <$> kommunerData) →
  (∀ c, c ∈ fylkerData → getFylkeById fylkerData (f_id c) = Some c) ∧
  (∀ m, m ∈ kommunerData → getKommuneById kommunerData (k_id m) = Some m).
Proof.
  intros Hf Hk. split.
  - intros c Hc. by apply (find_unique_key f_id).
  - intros m Hm. by apply (find_unique_key k_id).
Qed.

Lemma lookup_by_id_round_trip_witness :
  NoDup (f_id <$> sampleFylker) ∧
  NoDup (k_id <$> sampleKommuner) ∧
  getFylkeById sampleFylker (str "11") = Some (mkFylke "11" "Rogaland") ∧
  getKommuneById sampleKommuner (str "3101") = Some halden.
Proof.
  assert (Hf : NoDup (f_id <$> sampleFylker))
    by (apply (bool_decide_unpack _); vm_compute; exact I).
  assert (Hk : NoDup (k_id <$> sampleKommuner))
    by (apply (bool_decide_unpack _); vm_compute; exact I).
  split_and!; [done..| |].
  - apply (proj1 (lookup_by_id_round_trip sampleFylker sampleKommuner Hf Hk)
             (mkFylke "11" "Rogaland")).
    unfold sampleFylker. repeat constructor.
  - apply (proj2 (lookup_by_id_round_trip sampleFylker sampleKommuner Hf Hk)
             halden).
    unfold sampleKommuner. repeat constructor.
Defined.

(** ** The relational filter *)

(** C7: for every string [fylkeId], [getKommunerInFylke fylkeId] holds
    exactly the municipalities whose identifier starts with [fylkeId], code
    unit by code unit, in source order. *)
Theorem getKommunerInFylke_prefix
    (kommunerData : list Kommune) (fylkeId : jsstring) :
  selects (λ m, fylkeId `prefix_of` k_id m) kommunerData
    (getKommunerInFylke kommunerData fylkeId).
Proof.
  apply filter_selects. intros m. apply startsWith_spec.
Qed.

(** C10: with the empty string as county identifier, [getKommunerInFylke]
    returns the entire municipality table, since every identifier starts
    with the empty prefix. *)
Theorem getKommunerInFylke_empty (kommunerData : list Kommune) :
  getKommunerInFylke kommunerData [] = kommunerData.
Proof.
  apply filter_all. intros m _. apply startsWith_empty.
Qed.

(** ** The range filters *)

Lemma range_filter_selects (field : Kommune → number)
    (kommunerData : list Kommune) (min max : number) :
  selects (λ m, num_le min (field m) ∧ num_le (field m) max) kommunerData
    (List.filter
       (λ kommune, greaterThanOrEqual (field kommune) min &&
                   lessThanOrEqual (field kommune) max)
       kommunerData).
Proof. apply filter_selects. intros m. apply in_range_spec. Qed.

(** A lower bound above every value of the field leaves nothing. *)
Lemma range_filter_above (field : Kommune → number)
    (kommunerData : list Kommune) (top min max : number) :
  (∀ m, m ∈ kommunerData → num_le (field m) top) →
  num_lt top min →
  List.filter
    (λ kommune, greaterThanOrEqual (field kommune) min &&
                lessThanOrEqual (field kommune) max)
    kommunerData = [].
Proof.
  intros Htop [_ Hlt]. apply filter_none. intros m Hm.
  apply not_true_is_false. rewrite in_range_spec. intros [Hmin _].
  apply Hlt. eapply num_le_trans; [exact Hmin|]. by apply Htop.
Qed.

(** An empty range leaves nothing. *)
Lemma range_filter_empty (field : Kommune → number)
    (kommunerData : list Kommune) (min max : number) :
  num_lt max min →
  List.filter
    (λ kommune, greaterThanOrEqual (field kommune) min &&
                lessThanOrEqual (field kommune) max)
    kommunerData = [].
Proof.
  intros [_ Hlt]. apply filter_none. intros m Hm.
  apply not_true_is_false. rewrite in_range_spec. intros [Hmin Hmax].
  apply Hlt. by eapply num_le_trans.
Qed.

(** C4, as the code has it: the range filters take both bounds
    inclusively: for all numbers [min] and [max],
    [getKommunerByPopulation min max] holds exactly the municipalities [m]
    with [min <= k_population m <= max], in source order, and
    [getKommunerByArea] does the same over [k_area].  Hence, when all
    populations are non-negative, [getKommunerByPopulation 0 Infinity] is
    the whole table; and when [maxPopulation] bounds all populations and the
    sum [maxPopulation + 1], taken in doubles, is greater than
    [maxPopulation], [getKommunerByPopulation (maxPopulation + 1) Infinity]
    is empty. *)
Theorem range_filters_inclusive (kommunerData : list Kommune) :
  (∀ min max,
     selects (λ m, num_le min (k_population m) ∧ num_le (k_population m) max)
       kommunerData (getKommunerByPopulation kommunerData min max)) ∧
  (∀ min max,
     selects (λ m, num_le min (k_area m) ∧ num_le (k_area m) max)
       kommunerData (getKommunerByArea kommunerData min max)) ∧
  ((∀ m, m ∈ kommunerData → num_le (Finite 0) (k_population m)) →
   getKommunerByPopulation kommunerData (Finite 0) PosInfinity
   = kommunerData) ∧
  (∀ maxPopulation : spec_float,
     let next := double_add maxPopulation (double_of_Z 1) in
     (∀ m, m ∈ kommunerData →
           num_le (k_population m) (number_of_double maxPopulation)) →
     num_lt (number_of_double maxPopulation) (number_of_double next) →
     getKommunerByPopulation kommunerData (number_of_double next)
       PosInfinity = []).
Proof.
  split_and!.
  - intros min max. apply (range_filter_selects k_population).
  - intros min max. apply (range_filter_selects k_area).
  - intros Hpos. apply filter_all. intros m Hm. apply in_range_spec.
    split; [by apply Hpos|]. eapply num_le_PosInfinity. by apply Hpos.
  - intros maxPopulation next Hmax Hnext.
    by apply (range_filter_above k_population _
                (number_of_double maxPopulation)).
Qed.

Lemma range_filters_inclusive_witness :
  (∀ m, m ∈ sampleKommuner → num_le (Finite 0) (k_population m)) ∧
  (∀ m, m ∈ sampleKommuner →
        num_le (k_population m) (number_of_double (double_of_Z 717710))) ∧
  num_lt (number_of_double (double_of_Z 717710))
    (number_of_double (double_add (double_of_Z 717710) (double_of_Z 1))) ∧
  getKommunerByPopulation sampleKommuner (Finite 0) PosInfinity
  = sampleKommuner ∧
  getKommunerByPopulation sampleKommuner
    (number_of_double (double_add (double_of_Z 717710) (double_of_Z 1)))
    PosInfinity
  = [].
Proof.
  set (maxPopulation := double_of_Z 717710).
  set (next := double_add maxPopulation (double_of_Z 1)).
  assert (Hpos : ∀ m, m ∈ sampleKommuner →
                      num_le (Finite 0) (k_population m)).
  { intros m Hm. unfold sampleKommuner in Hm.
    repeat (apply elem_of_cons in Hm as [->|Hm]);
      [..|by apply elem_of_nil in Hm]; vm_compute; discriminate. }
  assert (Hmax : ∀ m, m ∈ sampleKommuner →
                      num_le (k_population m)
                        (number_of_double maxPopulation)).
  { intros m Hm. unfold sampleKommuner in Hm.
    repeat (apply elem_of_cons in Hm as [->|Hm]);
      [..|by apply elem_of_nil in Hm]; vm_compute; discriminate. }
  assert (Hnext : num_lt (number_of_double maxPopulation)
                    (number_of_double next)).
  { split; vm_compute; [discriminate|]. intros H. by apply H. }
  destruct (range_filters_inclusive sampleKommuner) as (_ & _ & Hall & Hnone).
  split_and!; [exact Hpos | exact Hmax | exact Hnext | exact (Hall Hpos)
              | exact (Hnone maxPopulation Hmax Hnext)].
Defined.

(** C4 as worded fails at the edge of the integers that doubles hold: for
    a table whose largest population is 2^53, the double sum
    [maxPopulation + 1] rounds back to 2^53, and the filter, whose lower
    bound is inclusive, returns the record. *)
Lemma range_filters_inclusive_counterexample :
  let big := mkKommune "0301" "Oslo" "Oslo" 9007199254740992 (45414 # 100) in
  let table := [big] in
  let maxPopulation := double_of_Z 9007199254740992 in
  let next := double_add maxPopulation (double_of_Z 1) in
  (∀ m, m ∈ table → num_le (Finite 0) (k_population m)) ∧
  (∀ m, m ∈ table →
        num_le (k_population m) (number_of_double maxPopulation)) ∧
  num_le (number_of_double maxPopulation) (k_population big) ∧
  next = maxPopulation ∧
  getKommunerByPopulation table (number_of_double next) PosInfinity = table ∧
  getKommunerByPopulation table (number_of_double next) PosInfinity ≠ [].
Proof.
  intros big table maxPopulation next. split_and!.
  - intros m [->|[]%elem_of_nil]%elem_of_cons. vm_compute. discriminate.
  - intros m [->|[]%elem_of_nil]%elem_of_cons. vm_compute. discriminate.
  - vm_compute. discriminate.
  - reflexivity.
  - reflexivity.
  - vm_compute. discriminate.
Qed.

(** ** Lookup and search by name *)

Section Names.
Variable toLowerCase : jsstring → jsstring.
Variable fylkerData : list Fylke.
Variable kommunerData : list Kommune.

(** C5: name lookup does not see case.  Two inputs with the same lower-case
    form (case variants of one another, such as [oslo] and [Oslo]) get the
    same answer from [getFylkeByName], and [getKommuneByName s] is the first
    municipality whose primary or alternate name equals [s] up to case, or
    the not-found value when there is none. *)
Theorem name_lookup_ignores_case (s : jsstring) :
  (∀ s', toLowerCase s' = toLowerCase s →
         getFylkeByName toLowerCase fylkerData s'
         = getFylkeByName toLowerCase fylkerData s) ∧
  first_match
    (λ m, toLowerCase (k_name m) = toLowerCase s ∨
          toLowerCase (k_name_no m) = toLowerCase s)
    kommunerData (getKommuneByName toLowerCase kommunerData s).
Proof.
  split.
  - intros s' Hs'. unfold getFylkeByName. by rewrite Hs'.
  - apply find_first_match. intros m.
    by rewrite orb_true_iff, !strictEquals_spec.
Qed.

(** C6: for every input [s], [searchKommunerByName s] holds exactly the
    municipalities whose primary or alternate name contains [s] as a
    substring up to case, in source order; the empty input returns every
    municipality of the table. *)
Theorem searchKommunerByName_substring (s : jsstring) :
  selects
    (λ m, substring (toLowerCase s) (toLowerCase (k_name m)) ∨
          substring (toLowerCase s) (toLowerCase (k_name_no m)))
    kommunerData (searchKommunerByName toLowerCase kommunerData s) ∧
  (toLowerCase [] = [] →
   searchKommunerByName toLowerCase kommunerData [] = kommunerData).
Proof.
  split.
  - apply filter_selects. intros m.
    by rewrite orb_true_iff, !includes_spec.
  - intros Hempty. apply filter_all. intros m _.
    by rewrite Hempty, includes_empty.
Qed.

End Names.

Lemma name_lookup_ignores_case_witness :
  asciiToLowerCase (str "oslo") = asciiToLowerCase (str "Oslo") ∧
  getFylkeByName asciiToLowerCase sampleFylker (str "oslo")
  = getFylkeByName asciiToLowerCase sampleFylker (str "Oslo").
Proof.
  split; [reflexivity|].
  apply (proj1 (name_lookup_ignores_case asciiToLowerCase sampleFylker
                  sampleKommuner (str "Oslo"))).
  reflexivity.
Defined.

Lemma searchKommunerByName_substring_witness :
  asciiToLowerCase [] = [] ∧
  searchKommunerByName asciiToLowerCase sampleKommuner [] = sampleKommuner.
Proof.
  split; [reflexivity|].
  apply (proj2 (searchKommunerByName_substring asciiToLowerCase
                  sampleKommuner [])).
  reflexivity.
Defined.

(** ** Lookup by short identifier *)

Lemma find_head {A} (p : A → bool) (l : list A) :
  (∀ x, x ∈ l → p x = true) → List.find p l = head l.
Proof.
  destruct l as [|x l]; simpl; intros H; [done|]. by rewrite (H x) by left.
Qed.

Lemma find_Some_true {A} (p : A → bool) (l : list A) (m : A) :
  List.find p l = Some m → p m = true.
Proof.
  induction l as [|y l IH]; simpl; [done|].
  destruct (p y) eqn:Hy; [|exact IH]. by intros [= <-].
Qed.

Lemma find_app_Some_iff {A} (p : A → bool) (before after : list A) (m : A) :
  (∀ x, x ∈ before → x ≠ m) →
  List.find p (before ++ m :: after) = Some m ↔
  p m = true ∧ ∀ x, x ∈ before → p x = false.
Proof.
  intros Hne. split.
  - intros Hfind. split; [by eapply find_Some_true|].
    induction before as [|y before IH]; simpl in *.
    + by intros ? ?%elem_of_nil.
    + destruct (p y) eqn:Hy.
      * injection Hfind as ->. destruct (Hne m); [left|done].
      * intros x [->|Hx]%elem_of_cons; [done|].
        apply IH; [|done..]. intros z Hz. apply Hne. by right.
  - intros [Hm Hbefore].
    induction before as [|y before IH]; simpl.
    + by rewrite Hm.
    + rewrite (Hbefore y) by left.
      apply IH; intros x Hx; [apply Hne | apply Hbefore]; by right.
Qed.

Lemma find_None_iff {A} (p : A → bool) (l : list A) :
  List.find p l = None ↔ ∀ x, x ∈ l → p x = false.
Proof.
  split; [|apply find_none].
  induction l as [|y l IH]; simpl.
  - by intros _ ? ?%elem_of_nil.
  - destruct (p y) eqn:Hy; [done|].
    intros H x [->|Hx]%elem_of_cons; auto.
Qed.

(** The relation [three_tier] has one result, the one the three [find]s
    compute. *)
Lemma three_tier_find (padded stripped digits : jsstring)
    (l : list Kommune) (o : option Kommune) :
  three_tier padded stripped digits l o ↔
  o = match List.find (λ m, strictEquals (k_id m) padded) l with
      | Some exactMatch => Some exactMatch
      | None =>
          match
            List.find
              (λ m, strictEquals (stripLeadingZeros (k_id m)) stripped) l
          with
          | Some noZerosMatch => Some noZerosMatch
          | None => List.find (λ m, subsequenceCheck digits (k_id m)) l
          end
      end.
Proof.
  pose proof (find_first_match (λ m : Kommune, k_id m = padded) _
                (λ m, strictEquals_spec (k_id m) padded) l) as Ha.
  pose proof (find_first_match
                (λ m : Kommune, stripLeadingZeros (k_id m) = stripped) _
                (λ m, strictEquals_spec (stripLeadingZeros (k_id m)) stripped)
                l) as Hb.
  pose proof (find_first_match (λ m : Kommune, digits `sublist_of` k_id m) _
                (λ m, subsequenceCheck_spec digits (k_id m)) l) as Hc.
  split.
  - intros (a & b & c & Ha' & Hb' & Hc' & ->).
    rewrite <- (first_match_unique _ _ _ _ Ha' Ha).
    rewrite <- (first_match_unique _ _ _ _ Hb' Hb).
    rewrite <- (first_match_unique _ _ _ _ Hc' Hc).
    by destruct a, b.
  - intros ->. eexists _, _, _. split_and!; [exact Ha | exact Hb | exact Hc |].
    by destruct (List.find _ l), (List.find _ l).
Qed.

(** C1, as the code has it: [getKommuneByShortId] first strips the leading
    zeros of the input, and all three tiers work on the stripped input: (a)
    it is left-padded to 4 digits and the municipality with that identifier
    is returned if there is one; (b) otherwise the first municipality whose
    identifier without leading zeros equals it is returned; (c) otherwise
    the first municipality in source order whose identifier contains its
    digits as an in-order subsequence, or the not-found value.  For an
    input of at most 4 digits the padded string of tier (a) is the input
    itself left-padded to 4 digits. *)
Theorem getKommuneByShortId_three_tier
    (kommunerData : list Kommune) (shortId : ShortId) :
  let input := String_ shortId in
  let searchId := stripLeadingZeros input in
  three_tier (padStart 4 zero searchId) searchId searchId kommunerData
    (getKommuneByShortId kommunerData shortId) ∧
  (length input ≤ 4 → padStart 4 zero searchId = padStart 4 zero input).
Proof.
  intros input searchId. split.
  - by apply three_tier_find.
  - apply padStart_stripLeadingZeros.
Qed.

Lemma getKommuneByShortId_three_tier_witness :
  length (String_ (IdString (str "0301"))) ≤ 4 ∧
  padStart 4 zero (stripLeadingZeros (String_ (IdString (str "0301"))))
  = padStart 4 zero (String_ (IdString (str "0301"))).
Proof.
  split; [vm_compute; lia|].
  apply (proj2 (getKommuneByShortId_three_tier sampleKommuner
                  (IdString (str "0301")))).
  vm_compute. lia.
Defined.

(** C1 as worded, with the third tier on the digits of the input itself,
    fails: for the input [05] over the records 1135 and 1505 the code
    searches for the subsequence [5] and returns 1135, which does not
    contain the digits 0, 5 in order, while 1505 does. *)
Lemma getKommuneByShortId_three_tier_counterexample :
  let input := str "05" in
  let table := [sauda; kristiansund] in
  getKommuneByShortId table (IdString input) = Some sauda ∧
  three_tier (padStart 4 zero input) (stripLeadingZeros input) input table
    (Some kristiansund) ∧
  ¬ three_tier (padStart 4 zero input) (stripLeadingZeros input) input table
      (getKommuneByShortId table (IdString input)).
Proof.
  split_and!.
  - reflexivity.
  - apply three_tier_find. reflexivity.
  - rewrite three_tier_find. vm_compute. discriminate.
Qed.

Lemma find_Some_elem_of {A} (p : A → bool) (l : list A) (x : A) :
  List.find p l = Some x → x ∈ l ∧ p x = true.
Proof. intros H. rewrite list_elem_of_In. by eapply List.find_some. Qed.

Lemma padStart_exact n (s : jsstring) : length s = n → padStart n zero s = s.
Proof. intros <-. unfold padStart. by rewrite Nat.sub_diag. Qed.

(** An identifier of exactly [n] code units is what padding its stripped
    form to [n] gives back. *)
Lemma padStart_strip_exact n (s : jsstring) :
  length s = n → padStart n zero (stripLeadingZeros s) = s.
Proof.
  intros Hlen. rewrite padStart_stripLeadingZeros by lia.
  by apply padStart_exact.
Qed.

Lemma sublist_padStart n (s : jsstring) : s `sublist_of` padStart n zero s.
Proof. unfold padStart. by apply sublist_inserts_l. Qed.

Lemma sublist_stripLeadingZeros (s : jsstring) :
  stripLeadingZeros s `sublist_of` s.
Proof.
  destruct (stripLeadingZeros_spec s) as (n & Hs & _).
  rewrite Hs at 2. by apply sublist_inserts_l.
Qed.

(** Whatever tier answers, the record it answers with passes the test of
    the last tier. *)
Lemma shortId_tiers_subsequence (searchId : jsstring) (m : Kommune) :
  strictEquals (k_id m) (padStart 4 zero searchId) = true ∨
  strictEquals (stripLeadingZeros (k_id m)) searchId = true ∨
  subsequenceCheck searchId (k_id m) = true →
  searchId `sublist_of` k_id m.
Proof.
  rewrite !strictEquals_spec, subsequenceCheck_spec.
  intros [->|[<-|H]]; [apply sublist_padStart
                      |apply sublist_stripLeadingZeros|exact H].
Qed.

Lemma getKommuneByShortId_None (kommunerData : list Kommune) shortId :
  getKommuneByShortId kommunerData shortId = None ↔
  ∀ m, m ∈ kommunerData →
       ¬ stripLeadingZeros (String_ shortId) `sublist_of` k_id m.
Proof.
  unfold getKommuneByShortId. cbv zeta.
  set (searchId := stripLeadingZeros (String_ shortId)). split.
  - destruct (List.find _ kommunerData); [done|].
    destruct (List.find _ kommunerData); [done|].
    rewrite find_None_iff. intros H m Hm.
    rewrite <- subsequenceCheck_spec, (H m Hm). discriminate.
  - intros H. rewrite !find_none; [done|..]; intros m Hm;
      apply not_true_is_false; intros Htier; apply (H m Hm);
      apply shortId_tiers_subsequence; auto.
Qed.

Lemma getKommuneByShortId_Some (kommunerData : list Kommune) shortId m :
  getKommuneByShortId kommunerData shortId = Some m →
  m ∈ kommunerData ∧ stripLeadingZeros (String_ shortId) `sublist_of` k_id m.
Proof.
  unfold getKommuneByShortId. cbv zeta.
  set (searchId := stripLeadingZeros (String_ shortId)).
  destruct (List.find (λ k, strictEquals (k_id k) _) kommunerData)
    as [a|] eqn:Ha.
  { intros [= ->]. apply find_Some_elem_of in Ha as [Hin Htier].
    split; [done|]. apply shortId_tiers_subsequence. auto. }
  destruct (List.find (λ k, strictEquals (stripLeadingZeros (k_id k)) _)
              kommunerData) as [b|] eqn:Hb.
  { intros [= ->]. apply find_Some_elem_of in Hb as [Hin Htier].
    split; [done|]. apply shortId_tiers_subsequence. auto. }
  intros [Hin Htier]%find_Some_elem_of.
  split; [done|]. apply shortId_tiers_subsequence. auto.
Qed.

Lemma shortId_0301_cases
    (before after : list Kommune) (m : Kommune) :
  let kommunerData := before ++ m :: after in
  k_id m = str "0301" →
  (∀ x, x ∈ before → k_id x ≠ str "0301") →
  getKommuneByShortId kommunerData (IdString (str "301")) = Some m ∧
  stripLeadingZeros (k_id m) ≠ str "31" ∧
  (getKommuneByShortId kommunerData (IdString (str "31")) = Some m ↔
   (∀ x, x ∈ kommunerData →
         k_id x ≠ str "0031" ∧ stripLeadingZeros (k_id x) ≠ str "31") ∧
   (∀ x, x ∈ before → ¬ str "31" `sublist_of` k_id x)).
Proof.
  intros kommunerData Hid Hfirst.
  assert (Hne : ∀ x, x ∈ before → x ≠ m).
  { intros x Hx ->. by apply (Hfirst m). }
  assert (Hstrip : stripLeadingZeros (k_id m) ≠ str "31")
    by (rewrite Hid; vm_compute; discriminate).
  split_and!; [|exact Hstrip|].
  - unfold getKommuneByShortId. cbv zeta.
    change (stripLeadingZeros (String_ (IdString (str "301"))))
      with (str "301").
    change (padStart 4 zero (str "301")) with (str "0301").
    replace (List.find _ kommunerData) with (Some m); [done|].
    symmetry. apply find_app_Some_iff; [done|]. split.
    + by apply strictEquals_spec.
    + intros x Hx. apply not_true_is_false. rewrite strictEquals_spec.
      by apply Hfirst.
  - unfold getKommuneByShortId. cbv zeta.
    change (stripLeadingZeros (String_ (IdString (str "31"))))
      with (str "31").
    change (padStart 4 zero (str "31")) with (str "0031").
    destruct (List.find (λ k, strictEquals (k_id k) (str "0031")) _)
      as [x|] eqn:Ha.
    { pose proof (find_Some_true _ _ _ Ha) as Hx.
      apply strictEquals_spec in Hx.
      pose proof (List.find_some _ _ Ha) as [Hin%list_elem_of_In _].
      split.
      - intros [= ->]. rewrite Hid in Hx. vm_compute in Hx. discriminate.
      - intros [Hall _]. by destruct (Hall x Hin). }
    destruct (List.find
                (λ k, strictEquals (stripLeadingZeros (k_id k)) (str "31")) _)
      as [x|] eqn:Hb.
    { pose proof (find_Some_true _ _ _ Hb) as Hx.
      apply strictEquals_spec in Hx.
      pose proof (List.find_some _ _ Hb) as [Hin%list_elem_of_In _].
      split.
      - by intros [= ->].
      - intros [Hall _]. by destruct (Hall x Hin). }
    rewrite find_None_iff in Ha. rewrite find_None_iff in Hb.
    unfold kommunerData at 1. rewrite find_app_Some_iff by done. split.
    + intros [_ Hbefore]. split.
      * intros x Hx. split.
        -- rewrite <- strictEquals_spec, (Ha x Hx). discriminate.
        -- rewrite <- strictEquals_spec, (Hb x Hx). discriminate.
      * intros x Hx. rewrite <- subsequenceCheck_spec, (Hbefore x Hx).
        discriminate.
    + intros [_ Hbefore]. split.
      * rewrite Hid. reflexivity.
      * intros x Hx. apply not_true_is_false.
        rewrite subsequenceCheck_spec. by apply Hbefore.
Qed.

(** C2, as the code has it: in a table whose first record with identifier
    0301 is [m], the lookup of [301] returns [m], by the padded exact match.
    The lookup of [31] never reaches [m] through the zero-stripped match,
    since 0301 without its leading zero is 301.  It always returns some
    record whose identifier contains the digits 3, 1 in order; that record
    is [m] exactly when no record has the identifier 0031 or the
    zero-stripped identifier 31 and no record before [m] contains the
    digits 3, 1 in order, and otherwise it is another municipality: the
    record with identifier 0031, else the first with zero-stripped
    identifier 31, else the first that contains 3, 1 in order. *)
Theorem getKommuneByShortId_0301
    (before after : list Kommune) (m : Kommune) :
  let kommunerData := before ++ m :: after in
  k_id m = str "0301" →
  (∀ x, x ∈ before → k_id x ≠ str "0301") →
  getKommuneByShortId kommunerData (IdString (str "301")) = Some m ∧
  stripLeadingZeros (k_id m) ≠ str "31" ∧
  (getKommuneByShortId kommunerData (IdString (str "31")) = Some m ↔
   (∀ x, x ∈ kommunerData →
         k_id x ≠ str "0031" ∧ stripLeadingZeros (k_id x) ≠ str "31") ∧
   (∀ x, x ∈ before → ¬ str "31" `sublist_of` k_id x)) ∧
  (∃ m',
     getKommuneByShortId kommunerData (IdString (str "31")) = Some m' ∧
     m' ∈ kommunerData ∧
     str "31" `sublist_of` k_id m' ∧
     (m' = m ↔
      (∀ x, x ∈ kommunerData →
            k_id x ≠ str "0031" ∧ stripLeadingZeros (k_id x) ≠ str "31") ∧
      (∀ x, x ∈ before → ¬ str "31" `sublist_of` k_id x))) ∧
  three_tier (str "0031") (str "31") (str "31") kommunerData
    (getKommuneByShortId kommunerData (IdString (str "31"))).
Proof.
  intros kommunerData Hid Hfirst.
  destruct (shortId_0301_cases before after m Hid Hfirst)
    as (H301 & Hstrip & Hiff).
  fold kommunerData in H301, Hiff.
  split_and!; [exact H301 | exact Hstrip | exact Hiff |
              | by apply three_tier_find].
  destruct (getKommuneByShortId kommunerData (IdString (str "31")))
    as [m'|] eqn:H31.
  - exists m'. apply getKommuneByShortId_Some in H31 as [Hin Hsub].
    split_and!; [done | exact Hin | exact Hsub |].
    rewrite <- Hiff. split; [by intros -> | by intros [= ->]].
  - exfalso. rewrite getKommuneByShortId_None in H31.
    apply (H31 m).
    + apply elem_of_app. right. left.
    + rewrite Hid. apply subsequenceCheck_spec. reflexivity.
Qed.

Lemma getKommuneByShortId_0301_witness :
  k_id oslo = str "0301" ∧
  (∀ x, x ∈ [sauda] → k_id x ≠ str "0301") ∧
  (∀ x, x ∈ [halden] → k_id x ≠ str "0301") ∧
  getKommuneByShortId [sauda; oslo; halden; bergen] (IdString (str "301"))
  = Some oslo ∧
  getKommuneByShortId [sauda; oslo; halden; bergen] (IdString (str "31"))
  = Some oslo ∧
  (∃ m',
     getKommuneByShortId [halden; oslo; sauda; bergen] (IdString (str "31"))
     = Some m' ∧ m' ≠ oslo).
Proof.
  assert (Hsauda : ∀ x, x ∈ [sauda] → k_id x ≠ str "0301").
  { intros x [->|[]%elem_of_nil]%elem_of_cons. vm_compute. discriminate. }
  assert (Hhalden : ∀ x, x ∈ [halden] → k_id x ≠ str "0301").
  { intros x [->|[]%elem_of_nil]%elem_of_cons. vm_compute. discriminate. }
  destruct (getKommuneByShortId_0301 [sauda] [halden; bergen] oslo
              eq_refl Hsauda) as (H301 & _ & H31 & _ & _).
  destruct (getKommuneByShortId_0301 [halden] [sauda; bergen] oslo
              eq_refl Hhalden)
    as (_ & _ & _ & (m' & Hother & _ & _ & Hsame) & _).
  split_and!; [reflexivity | exact Hsauda | exact Hhalden | exact H301 | |].
  - apply H31. split.
    + intros x Hx.
      repeat (apply elem_of_cons in Hx as [->|Hx]);
        [..|by apply elem_of_nil in Hx]; split; vm_compute; discriminate.
    + intros x [->|[]%elem_of_nil]%elem_of_cons.
      rewrite <- subsequenceCheck_spec. vm_compute. discriminate.
  - exists m'. split; [exact Hother|].
    intros Heq. apply Hsame in Heq as [_ Hbefore].
    apply (Hbefore halden); [left|].
    apply subsequenceCheck_spec. reflexivity.
Defined.

(** C2 as worded fails: with the record 3101 placed before 0301, the lookup
    of [31] returns 3101, a municipality of another county that shares the
    digit subsequence; and the zero-stripped match finds nothing for [31]
    whatever the order, so that lookup always ends in the subsequence
    fallback. *)
Lemma getKommuneByShortId_0301_counterexample :
  let table := [halden; oslo; sauda; bergen] in
  getKommuneByShortId table (IdString (str "301")) = Some oslo ∧
  getKommuneByShortId table (IdString (str "31")) = Some halden ∧
  getKommuneByShortId table (IdString (str "31")) ≠ Some oslo ∧
  List.find (λ k, strictEquals (stripLeadingZeros (k_id k)) (str "31")) table
  = None ∧
  ¬ str "03" `prefix_of` k_id halden.
Proof.
  split_and!; [reflexivity | reflexivity | vm_compute; discriminate
              | reflexivity |].
  rewrite <- startsWith_spec. vm_compute. discriminate.
Qed.

(** C9: when the input is the empty string or zeros only, the search string
    left after stripping is empty, every identifier passes the subsequence
    check, and, no record having the identifier 0000 or an identifier made
    of zeros only, [getKommuneByShortId] returns the first municipality of
    the table. *)
Theorem getKommuneByShortId_zeros
    (kommunerData : list Kommune) (shortId : ShortId) (n : nat) :
  String_ shortId = replicate n zero →
  (∀ m, m ∈ kommunerData → k_id m ≠ str "0000") →
  (∀ m, m ∈ kommunerData → stripLeadingZeros (k_id m) ≠ []) →
  stripLeadingZeros (String_ shortId) = [] ∧
  (∀ kommuneId, subsequenceCheck [] kommuneId = true) ∧
  getKommuneByShortId kommunerData shortId = head kommunerData.
Proof.
  intros Hinput Hexact HnoZeros.
  assert (Hsearch : stripLeadingZeros (String_ shortId) = [])
    by (rewrite Hinput; apply stripLeadingZeros_zeros).
  split_and!; [exact Hsearch | apply subsequenceCheck_empty |].
  unfold getKommuneByShortId. cbv zeta. rewrite Hsearch.
  change (padStart 4 zero []) with (str "0000").
  rewrite find_none.
  2:{ intros m Hm. apply not_true_is_false. rewrite strictEquals_spec.
      by apply Hexact. }
  rewrite find_none.
  2:{ intros m Hm. apply not_true_is_false. rewrite strictEquals_spec.
      by apply HnoZeros. }
  apply find_head. intros m _. apply subsequenceCheck_empty.
Qed.

Lemma getKommuneByShortId_zeros_witness :
  String_ (IdString (str "00")) = replicate 2 zero ∧
  String_ (IdNumber 0 eq_refl) = replicate 1 zero ∧
  getKommuneByShortId sampleKommuner (IdString (str "00")) = Some oslo ∧
  getKommuneByShortId sampleKommuner (IdNumber 0 eq_refl) = Some oslo.
Proof.
  assert (Hexact : ∀ m, m ∈ sampleKommuner → k_id m ≠ str "0000").
  { intros m Hm. unfold sampleKommuner in Hm.
    repeat (apply elem_of_cons in Hm as [->|Hm]);
      [..|by apply elem_of_nil in Hm]; vm_compute; discriminate. }
  assert (HnoZeros : ∀ m, m ∈ sampleKommuner →
                          stripLeadingZeros (k_id m) ≠ []).
  { intros m Hm. unfold sampleKommuner in Hm.
    repeat (apply elem_of_cons in Hm as [->|Hm]);
      [..|by apply elem_of_nil in Hm]; vm_compute; discriminate. }
  split_and!; [reflexivity | reflexivity | |].
  - apply (getKommuneByShortId_zeros sampleKommuner (IdString (str "00")) 2
             eq_refl Hexact HnoZeros).
  - apply (getKommuneByShortId_zeros sampleKommuner (IdNumber 0 eq_refl) 1
             eq_refl Hexact HnoZeros).
Defined.

(** ** Misses and empty ranges *)

(** C8: no query fails.  Every function of the query layer is a total
    function into an optional record or a list; the one loop of the module
    leaves through its condition; a lookup that matches no record returns
    the not-found value; and a range filter whose bounds are an empty range
    ([min > max]) returns the empty list. *)
Theorem queries_never_fail
    (toLowerCase : jsstring → jsstring)
    (fylkerData : list Fylke) (kommunerData : list Kommune) :
  (∀ id, (∀ c, c ∈ fylkerData → f_id c ≠ id) →
         getFylkeById fylkerData id = None) ∧
  (∀ id, (∀ m, m ∈ kommunerData → k_id m ≠ id) →
         getKommuneById kommunerData id = None) ∧
  (∀ name,
     (∀ c, c ∈ fylkerData → toLowerCase (f_name c) ≠ toLowerCase name) →
     getFylkeByName toLowerCase fylkerData name = None) ∧
  (∀ name,
     (∀ m, m ∈ kommunerData →
           toLowerCase (k_name m) ≠ toLowerCase name ∧
           toLowerCase (k_name_no m) ≠ toLowerCase name) →
     getKommuneByName toLowerCase kommunerData name = None) ∧
  (∀ shortId,
     let searchId := stripLeadingZeros (String_ shortId) in
     (∀ m, m ∈ kommunerData →
           k_id m ≠ padStart 4 zero searchId ∧
           stripLeadingZeros (k_id m) ≠ searchId ∧
           ¬ searchId `sublist_of` k_id m) →
     getKommuneByShortId kommunerData shortId = None) ∧
  (∀ min max, num_lt max min →
              getKommunerByPopulation kommunerData min max = [] ∧
              getKommunerByArea kommunerData min max = []) ∧
  (∀ searchId kommuneId : jsstring,
     let '(searchIndex, kommuneIndex) :=
       subsequenceLoop (length kommuneId) searchId kommuneId 0 0 in
     ¬ (searchIndex < length searchId ∧ kommuneIndex < length kommuneId)).
Proof.
  split_and!.
  - intros id Hmiss. apply find_none. intros c Hc.
    apply not_true_is_false. rewrite strictEquals_spec. by apply Hmiss.
  - intros id Hmiss. apply find_none. intros m Hm.
    apply not_true_is_false. rewrite strictEquals_spec. by apply Hmiss.
  - intros name Hmiss. apply find_none. intros c Hc.
    apply not_true_is_false. rewrite strictEquals_spec. by apply Hmiss.
  - intros name Hmiss. apply find_none. intros m Hm.
    apply not_true_is_false. rewrite orb_true_iff, !strictEquals_spec.
    destruct (Hmiss m Hm). tauto.
  - intros shortId searchId Hmiss. unfold getKommuneByShortId. cbv zeta.
    fold searchId. rewrite !find_none; [done|..]; intros m Hm;
      apply not_true_is_false; destruct (Hmiss m Hm) as (Ha & Hb & Hc).
    + by rewrite subsequenceCheck_spec.
    + by rewrite strictEquals_spec.
    + by rewrite strictEquals_spec.
  - intros min max Hempty. split.
    + by apply (range_filter_empty k_population).
    + by apply (range_filter_empty k_area).
  - intros searchId kommuneId. apply subsequenceLoop_exits. lia.
Qed.

Lemma queries_never_fail_witness :
  num_lt (Finite 10) (Finite 20) ∧
  getKommunerByPopulation sampleKommuner (Finite 20) (Finite 10) = [] ∧
  getKommunerByArea sampleKommuner (Finite 20) (Finite 10) = [] ∧
  getFylkeById sampleFylker (str "99") = None.
Proof.
  assert (Hlt : num_lt (Finite 10) (Finite 20)).
  { split; vm_compute; [discriminate|]. intros H. by apply H. }
  destruct (queries_never_fail asciiToLowerCase sampleFylker sampleKommuner)
    as (Hid & _ & _ & _ & _ & Hrange & _).
  split_and!; [exact Hlt | apply (Hrange _ _ Hlt) | apply (Hrange _ _ Hlt) |].
  apply Hid. intros c Hc. unfold sampleFylker in Hc.
  repeat (apply elem_of_cons in Hc as [->|Hc]);
    [..|by apply elem_of_nil in Hc]; vm_compute; discriminate.
Defined.

(** * Further properties of the query layer *)

(** ** The short identifier lookup *)

(** X1: leading zeros of the input do not matter: the input with any
    number of zeros put in front gets the same answer. *)
Theorem getKommuneByShortId_leading_zeros
    (kommunerData : list Kommune) (shortId : ShortId) (n : nat) :
  getKommuneByShortId kommunerData
    (IdString (replicate n zero ++ String_ shortId))
  = getKommuneByShortId kommunerData shortId.
Proof.
  unfold getKommuneByShortId. cbv zeta.
  change (String_ (IdString ?s)) with s.
  by rewrite stripLeadingZeros_replicate.
Qed.

(** X2: in a table with unique identifiers, a record [m] whose identifier
    has 4 code units is found from any input that, leading zeros apart, is
    that identifier: the full identifier, or it without its leading
    zeros. *)
Theorem getKommuneByShortId_finds_record
    (kommunerData : list Kommune) (shortId : ShortId) (m : Kommune) :
  NoDup (k_id <$> kommunerData) →
  m ∈ kommunerData →
  length (k_id m) = 4 →
  stripLeadingZeros (String_ shortId) = stripLeadingZeros (k_id m) →
  getKommuneByShortId kommunerData shortId = Some m.
Proof.
  intros Hnodup Hm Hlen Hinput. unfold getKommuneByShortId. cbv zeta.
  rewrite Hinput, (padStart_strip_exact 4) by done.
  by rewrite (find_unique_key k_id).
Qed.

Lemma getKommuneByShortId_finds_record_witness :
  NoDup (k_id <$> sampleKommuner) ∧
  oslo ∈ sampleKommuner ∧
  length (k_id oslo) = 4 ∧
  stripLeadingZeros (String_ (IdNumber 301 eq_refl))
  = stripLeadingZeros (k_id oslo) ∧
  getKommuneByShortId sampleKommuner (IdNumber 301 eq_refl) = Some oslo.
Proof.
  assert (Hnodup : NoDup (k_id <$> sampleKommuner))
    by (apply (bool_decide_unpack _); vm_compute; exact I).
  assert (Hin : oslo ∈ sampleKommuner) by (unfold sampleKommuner; left).
  split_and!; [exact Hnodup | exact Hin | reflexivity | reflexivity |].
  exact (getKommuneByShortId_finds_record sampleKommuner
           (IdNumber 301 eq_refl) oslo Hnodup Hin eq_refl eq_refl).
Defined.

(** X3: a record returned by [getKommuneByShortId] is a record of the
    table whose identifier contains the digits of the stripped input in
    order, whichever tier found it; and the lookup misses exactly when no
    identifier of the table contains them. *)
Theorem getKommuneByShortId_sound_complete
    (kommunerData : list Kommune) (shortId : ShortId) :
  let searchId := stripLeadingZeros (String_ shortId) in
  (∀ m, getKommuneByShortId kommunerData shortId = Some m →
        m ∈ kommunerData ∧ searchId `sublist_of` k_id m) ∧
  (getKommuneByShortId kommunerData shortId = None ↔
   ∀ m, m ∈ kommunerData → ¬ searchId `sublist_of` k_id m).
Proof.
  intros searchId. split; [|apply getKommuneByShortId_None].
  intros m. unfold getKommuneByShortId. cbv zeta. fold searchId.
  destruct (List.find (λ k, strictEquals (k_id k) _) kommunerData)
    as [a|] eqn:Ha.
  { intros [= ->].
    destruct (List.find_some _ _ Ha) as [Hin%list_elem_of_In Htier].
    split; [done|]. apply shortId_tiers_subsequence. auto. }
  destruct (List.find (λ k, strictEquals (stripLeadingZeros (k_id k)) _)
              kommunerData) as [b|] eqn:Hb.
  { intros [= ->].
    destruct (List.find_some _ _ Hb) as [Hin%list_elem_of_In Htier].
    split; [done|]. apply shortId_tiers_subsequence. auto. }
  intros Hc.
  destruct (List.find_some _ _ Hc) as [Hin%list_elem_of_In Htier].
  split; [done|]. apply shortId_tiers_subsequence. auto.
Qed.

Lemma getKommuneByShortId_sound_complete_witness :
  getKommuneByShortId sampleKommuner (IdString (str "31")) = Some oslo ∧
  oslo ∈ sampleKommuner ∧
  stripLeadingZeros (String_ (IdString (str "31"))) `sublist_of` k_id oslo.
Proof.
  split; [reflexivity|].
  apply (proj1 (getKommuneByShortId_sound_complete sampleKommuner
                  (IdString (str "31"))) oslo).
  reflexivity.
Defined.

(** X4: when every identifier of the table has 4 code units, the second
    tier never answers: an identifier that matches the input once both are
    stripped is the padded input, which the first tier has already found.
    The lookup is then the exact match followed by the subsequence scan. *)
Theorem getKommuneByShortId_second_tier_idle
    (kommunerData : list Kommune) (shortId : ShortId) :
  (∀ m, m ∈ kommunerData → length (k_id m) = 4) →
  let searchId := stripLeadingZeros (String_ shortId) in
  getKommuneByShortId kommunerData shortId =
  match
    List.find (λ kommune, strictEquals (k_id kommune)
                            (padStart 4 zero searchId)) kommunerData
  with
  | Some exactMatch => Some exactMatch
  | None =>
      List.find (λ kommune, subsequenceCheck searchId (k_id kommune))
        kommunerData
  end.
Proof.
  intros Hlen searchId. unfold getKommuneByShortId. cbv zeta. fold searchId.
  destruct (List.find _ kommunerData) as [a|] eqn:Ha; [done|].
  rewrite find_None_iff in Ha.
  rewrite (find_none (λ kommune, strictEquals _ searchId)); [done|].
  intros m Hm. apply not_true_is_false. rewrite strictEquals_spec.
  intros Hstrip. specialize (Ha m Hm). apply not_true_iff_false in Ha.
  apply Ha, strictEquals_spec. rewrite <- Hstrip.
  symmetry. by apply padStart_strip_exact, Hlen.
Qed.

Lemma getKommuneByShortId_second_tier_idle_witness :
  (∀ m, m ∈ sampleKommuner → length (k_id m) = 4) ∧
  getKommuneByShortId sampleKommuner (IdString (str "46")) = Some bergen.
Proof.
  assert (Hlen : ∀ m, m ∈ sampleKommuner → length (k_id m) = 4).
  { intros m Hm. unfold sampleKommuner in Hm.
    repeat (apply elem_of_cons in Hm as [->|Hm]);
      [..|by apply elem_of_nil in Hm]; reflexivity. }
  split; [exact Hlen|].
  rewrite (getKommuneByShortId_second_tier_idle sampleKommuner
             (IdString (str "46")) Hlen).
  reflexivity.
Defined.

(** X5: an input whose stripped form is longer than every identifier of
    the table is not found. *)
Theorem getKommuneByShortId_too_long
    (kommunerData : list Kommune) (shortId : ShortId) :
  (∀ m, m ∈ kommunerData →
        length (k_id m) < length (stripLeadingZeros (String_ shortId))) →
  getKommuneByShortId kommunerData shortId = None.
Proof.
  intros Hlong. apply getKommuneByShortId_None. intros m Hm Hsub.
  apply sublist_length in Hsub. specialize (Hlong m Hm). lia.
Qed.

Lemma getKommuneByShortId_too_long_witness :
  (∀ m, m ∈ sampleKommuner →
        length (k_id m)
        < length (stripLeadingZeros (String_ (IdNumber 46010 eq_refl)))) ∧
  getKommuneByShortId sampleKommuner (IdNumber 46010 eq_refl) = None.
Proof.
  assert (Hlong : ∀ m, m ∈ sampleKommuner →
            length (k_id m)
            < length (stripLeadingZeros (String_ (IdNumber 46010 eq_refl)))).
  { intros m Hm. unfold sampleKommuner in Hm.
    repeat (apply elem_of_cons in Hm as [->|Hm]);
      [..|by apply elem_of_nil in Hm]; vm_compute; lia. }
  split; [exact Hlong|].
  exact (getKommuneByShortId_too_long sampleKommuner
           (IdNumber 46010 eq_refl) Hlong).
Defined.

(** X6: a number given as input, a non-negative integer below 2^53, is
    searched by its decimal digits as they are: stripping changes nothing
    for a positive number, and the number 0 leaves the empty search
    string. *)
Theorem getKommuneByShortId_number_digits
    (n : N) (safe : (n < 9007199254740992)%N) :
  stripLeadingZeros (String_ (IdNumber n safe))
  = if (n =? 0)%N then [] else String_ (IdNumber n safe).
Proof.
  destruct (N.eqb_spec n 0) as [->|Hn]; [reflexivity|].
  unfold String_.
  pose proof (DecimalN.Unsigned.to_of (N.to_uint n)) as Hnorm.
  rewrite DecimalN.Unsigned.of_to in Hnorm.
  unfold Decimal.unorm in Hnorm.
  destruct (Decimal.nzhead (N.to_uint n)) eqn:Hhead;
    try (rewrite Hnorm; reflexivity).
  - destruct Hn. rewrite <- (DecimalN.Unsigned.of_to n), Hnorm. reflexivity.
  - by apply DecimalFacts.nzhead_nonzero in Hhead.
Qed.

Lemma getKommuneByShortId_number_digits_witness :
  (301 < 9007199254740992)%N ∧
  stripLeadingZeros (String_ (IdNumber 301 eq_refl)) = str "301".
Proof.
  split; [reflexivity|].
  exact (getKommuneByShortId_number_digits 301 eq_refl).
Defined.

(** ** Results are records of the table *)

Lemma elem_of_filter_bool {A} (p : A → bool) (l : list A) (x : A) :
  x ∈ List.filter p l ↔ x ∈ l ∧ p x = true.
Proof. by rewrite !list_elem_of_In, List.filter_In. Qed.

Lemma filter_sublist {A} (p : A → bool) (l : list A) :
  List.filter p l `sublist_of` l.
Proof.
  induction l as [|x l IH]; simpl; [done|].
  destruct (p x); by constructor.
Qed.

Lemma filter_sublist_impl {A} (p q : A → bool) (l : list A) :
  (∀ x, p x = true → q x = true) →
  List.filter p l `sublist_of` List.filter q l.
Proof.
  intros Himpl. induction l as [|x l IH]; simpl; [done|].
  destruct (p x) eqn:Hp.
  - rewrite (Himpl x Hp). by constructor.
  - destruct (q x); [by constructor | done].
Qed.

(** X7: a record returned by an exact lookup is a record of the table that
    carries the key asked for: the identifier for the lookups by
    identifier, the name up to case for the lookups by name. *)
Theorem lookups_return_table_records
    (toLowerCase : jsstring → jsstring)
    (fylkerData : list Fylke) (kommunerData : list Kommune) :
  (∀ id c, getFylkeById fylkerData id = Some c →
           c ∈ fylkerData ∧ f_id c = id) ∧
  (∀ id m, getKommuneById kommunerData id = Some m →
           m ∈ kommunerData ∧ k_id m = id) ∧
  (∀ name c, getFylkeByName toLowerCase fylkerData name = Some c →
             c ∈ fylkerData ∧ toLowerCase (f_name c) = toLowerCase name) ∧
  (∀ name m, getKommuneByName toLowerCase kommunerData name = Some m →
             m ∈ kommunerData ∧
             (toLowerCase (k_name m) = toLowerCase name ∨
              toLowerCase (k_name_no m) = toLowerCase name)).
Proof.
  split_and!; intros key x [Hin Hp]%find_Some_elem_of; (split; [done|]).
  - by apply strictEquals_spec.
  - by apply strictEquals_spec.
  - by apply strictEquals_spec.
  - by rewrite orb_true_iff, !strictEquals_spec in Hp.
Qed.

Lemma lookups_return_table_records_witness :
  getKommuneById sampleKommuner (str "4601") = Some bergen ∧
  bergen ∈ sampleKommuner ∧ k_id bergen = str "4601".
Proof.
  split; [reflexivity|].
  apply (proj1 (proj2 (lookups_return_table_records asciiToLowerCase
                         sampleFylker sampleKommuner)) (str "4601") bergen).
  reflexivity.
Defined.

(** X8: every filter and search returns the table with some records left
    out: nothing is added, repeated or moved. *)
Theorem filters_return_subtables
    (toLowerCase : jsstring → jsstring)
    (fylkerData : list Fylke) (kommunerData : list Kommune) :
  (∀ language, getKommunerByLanguage toLowerCase kommunerData language
               `sublist_of` kommunerData) ∧
  (∀ fylkeId, getKommunerInFylke kommunerData fylkeId
              `sublist_of` kommunerData) ∧
  (∀ min max, getKommunerByPopulation kommunerData min max
              `sublist_of` kommunerData) ∧
  (∀ min max, getKommunerByArea kommunerData min max
              `sublist_of` kommunerData) ∧
  (∀ nameFragment,
     searchKommunerByName toLowerCase kommunerData nameFragment
     `sublist_of` kommunerData) ∧
  (∀ nameFragment, searchFylkerByName toLowerCase fylkerData nameFragment
                   `sublist_of` fylkerData).
Proof. split_and!; intros; apply filter_sublist. Qed.

(** ** The language filter and the county search *)

(** X9: [getKommunerByLanguage language] holds exactly the municipalities
    whose language form equals [language] up to case, in source order, and
    two inputs with the same lower-case form get the same list. *)
Theorem getKommunerByLanguage_ignores_case
    (toLowerCase : jsstring → jsstring) (kommunerData : list Kommune)
    (language : jsstring) :
  selects (λ m, toLowerCase (k_language m) = toLowerCase language)
    kommunerData (getKommunerByLanguage toLowerCase kommunerData language) ∧
  (∀ language', toLowerCase language' = toLowerCase language →
     getKommunerByLanguage toLowerCase kommunerData language'
     = getKommunerByLanguage toLowerCase kommunerData language).
Proof.
  split.
  - apply filter_selects. intros m. apply strictEquals_spec.
  - intros language' Hcase. unfold getKommunerByLanguage. by rewrite Hcase.
Qed.

Lemma getKommunerByLanguage_ignores_case_witness :
  asciiToLowerCase (str "BOKMAL") = asciiToLowerCase (str "Bokmal") ∧
  getKommunerByLanguage asciiToLowerCase sampleKommuner (str "BOKMAL")
  = getKommunerByLanguage asciiToLowerCase sampleKommuner (str "Bokmal").
Proof.
  split; [reflexivity|].
  apply (proj2 (getKommunerByLanguage_ignores_case asciiToLowerCase
                  sampleKommuner (str "Bokmal"))).
  reflexivity.
Defined.

(** X10: [searchFylkerByName s] holds exactly the counties whose name
    contains [s] as a substring up to case, in source order; the empty
    input returns every county. *)
Theorem searchFylkerByName_substring
    (toLowerCase : jsstring → jsstring) (fylkerData : list Fylke)
    (s : jsstring) :
  selects (λ c, substring (toLowerCase s) (toLowerCase (f_name c)))
    fylkerData (searchFylkerByName toLowerCase fylkerData s) ∧
  (toLowerCase [] = [] →
   searchFylkerByName toLowerCase fylkerData [] = fylkerData).
Proof.
  split.
  - apply filter_selects. intros c. apply includes_spec.
  - intros Hempty. apply filter_all. intros c _.
    by rewrite Hempty, includes_empty.
Qed.

Lemma searchFylkerByName_substring_witness :
  asciiToLowerCase [] = [] ∧
  searchFylkerByName asciiToLowerCase sampleFylker [] = sampleFylker.
Proof.
  split; [reflexivity|].
  apply (proj2 (searchFylkerByName_substring asciiToLowerCase sampleFylker
                  [])).
  reflexivity.
Defined.

(** ** More on the range filters *)

(** X11: widening a range never loses a record: when [min' <= min] and
    [max <= max'], the municipalities of the range from [min] to [max] are
    among those of the range from [min'] to [max'], in the same order; for
    population and for area alike. *)
Theorem range_filters_monotone
    (kommunerData : list Kommune) (min min' max max' : number) :
  num_le min' min → num_le max max' →
  getKommunerByPopulation kommunerData min max
  `sublist_of` getKommunerByPopulation kommunerData min' max' ∧
  getKommunerByArea kommunerData min max
  `sublist_of` getKommunerByArea kommunerData min' max'.
Proof.
  intros Hmin Hmax.
  split; apply filter_sublist_impl; intros m; rewrite !in_range_spec;
    intros [H1 H2]; split; by eapply num_le_trans.
Qed.

Lemma range_filters_monotone_witness :
  num_le (Finite 1000) (Finite 5000) ∧
  num_le (Finite 100000) PosInfinity ∧
  getKommunerByPopulation sampleKommuner (Finite 5000) (Finite 100000)
  `sublist_of`
  getKommunerByPopulation sampleKommuner (Finite 1000) PosInfinity.
Proof.
  assert (Hmin : num_le (Finite 1000) (Finite 5000))
    by (vm_compute; discriminate).
  assert (Hmax : num_le (Finite 100000) PosInfinity) by exact I.
  split_and!; [exact Hmin | exact Hmax |].
  exact (proj1 (range_filters_monotone sampleKommuner _ _ _ _ Hmin Hmax)).
Defined.

(** X12: a bound that is NaN makes a range filter return the empty list,
    whatever the other bound, and a record whose population (or area) is
    NaN is in no population (or area) range. *)
Theorem range_filters_NaN (kommunerData : list Kommune) :
  (∀ bound,
     getKommunerByPopulation kommunerData NaN bound = [] ∧
     getKommunerByPopulation kommunerData bound NaN = [] ∧
     getKommunerByArea kommunerData NaN bound = [] ∧
     getKommunerByArea kommunerData bound NaN = []) ∧
  (∀ min max m,
     (m ∈ getKommunerByPopulation kommunerData min max →
      k_population m ≠ NaN) ∧
     (m ∈ getKommunerByArea kommunerData min max → k_area m ≠ NaN)).
Proof.
  split.
  - intros bound.
    split_and!; apply filter_none; intros m _; apply not_true_is_false;
      rewrite in_range_spec; intros [H1 H2];
      [by destruct (k_population m) | by destruct (k_population m)
      |by destruct (k_area m) | by destruct (k_area m)].
  - intros min max m.
    split; intros [_ [H _]%in_range_spec]%elem_of_filter_bool Hnan;
      rewrite Hnan in H; by destruct min.
Qed.

Lemma range_filters_NaN_witness :
  sauda ∈ getKommunerByPopulation sampleKommuner (Finite 0) (Finite 10000) ∧
  k_population sauda ≠ NaN.
Proof.
  assert (Hin : sauda ∈ getKommunerByPopulation sampleKommuner (Finite 0)
                          (Finite 10000)) by (vm_compute; left).
  split; [exact Hin|].
  exact (proj1 (proj2 (range_filters_NaN sampleKommuner) (Finite 0)
                  (Finite 10000) sauda) Hin).
Defined.

(** ** More on the relational filter *)

(** X13: every municipality of the table is listed under each prefix of
    its own identifier, in particular under its first two characters. *)
Theorem getKommunerInFylke_own_prefix
    (kommunerData : list Kommune) (m : Kommune) (n : nat) :
  m ∈ kommunerData →
  m ∈ getKommunerInFylke kommunerData (take n (k_id m)).
Proof.
  intros Hm. apply elem_of_filter_bool. split; [done|].
  apply startsWith_spec, prefix_take.
Qed.

Lemma getKommunerInFylke_own_prefix_witness :
  halden ∈ sampleKommuner ∧
  halden ∈ getKommunerInFylke sampleKommuner (str "31").
Proof.
  assert (Hin : halden ∈ sampleKommuner)
    by (unfold sampleKommuner; repeat constructor).
  split; [exact Hin|].
  exact (getKommunerInFylke_own_prefix sampleKommuner halden 2 Hin).
Defined.

(** X14: two different county identifiers of the same length share no
    municipality. *)
Theorem getKommunerInFylke_disjoint
    (kommunerData : list Kommune) (fylkeId1 fylkeId2 : jsstring)
    (m : Kommune) :
  length fylkeId1 = length fylkeId2 →
  fylkeId1 ≠ fylkeId2 →
  m ∈ getKommunerInFylke kommunerData fylkeId1 →
  m ∉ getKommunerInFylke kommunerData fylkeId2.
Proof.
  intros Hlen Hne [_ H1]%elem_of_filter_bool [_ H2]%elem_of_filter_bool.
  apply startsWith_spec in H1 as [k1 H1].
  apply startsWith_spec in H2 as [k2 H2].
  apply Hne. rewrite H1 in H2. by apply app_inj_1 in H2 as [? _].
Qed.

Lemma getKommunerInFylke_disjoint_witness :
  length (str "03") = length (str "31") ∧
  str "03" ≠ str "31" ∧
  oslo ∈ getKommunerInFylke sampleKommuner (str "03") ∧
  oslo ∉ getKommunerInFylke sampleKommuner (str "31").
Proof.
  assert (Hne : str "03" ≠ str "31") by (vm_compute; discriminate).
  assert (Hin : oslo ∈ getKommunerInFylke sampleKommuner (str "03"))
    by (vm_compute; left).
  split_and!; [reflexivity | exact Hne | exact Hin |].
  exact (getKommunerInFylke_disjoint sampleKommuner (str "03") (str "31")
           oslo eq_refl Hne Hin).
Defined.

(** X15: a longer identifier prefix narrows the result: when [fylkeId1] is
    a prefix of [fylkeId2], the municipalities under [fylkeId2] are among
    those under [fylkeId1], in the same order. *)
Theorem getKommunerInFylke_narrows
    (kommunerData : list Kommune) (fylkeId1 fylkeId2 : jsstring) :
  fylkeId1 `prefix_of` fylkeId2 →
  getKommunerInFylke kommunerData fylkeId2
  `sublist_of` getKommunerInFylke kommunerData fylkeId1.
Proof.
  intros Hprefix. apply filter_sublist_impl. intros m.
  rewrite !startsWith_spec. intros H. by etrans.
Qed.

Lemma getKommunerInFylke_narrows_witness :
  str "4" `prefix_of` str "46" ∧
  getKommunerInFylke sampleKommuner (str "46")
  `sublist_of` getKommunerInFylke sampleKommuner (str "4").
Proof.
  assert (Hprefix : str "4" `prefix_of` str "46")
    by (apply startsWith_spec; reflexivity).
  split; [exact Hprefix|].
  exact (getKommunerInFylke_narrows sampleKommuner _ _ Hprefix).
Defined.

(** ** Lookup by name against search by name *)

Lemma substring_refl (s : jsstring) : substring s s.
Proof. exists [], []. by rewrite app_nil_r. Qed.

(** X16: the record an exact name lookup returns is among the results of
    the name search for the same input, for municipalities and for
    counties. *)
Theorem name_lookup_in_search
    (toLowerCase : jsstring → jsstring)
    (fylkerData : list Fylke) (kommunerData : list Kommune)
    (name : jsstring) :
  (∀ m, getKommuneByName toLowerCase kommunerData name = Some m →
        m ∈ searchKommunerByName toLowerCase kommunerData name) ∧
  (∀ c, getFylkeByName toLowerCase fylkerData name = Some c →
        c ∈ searchFylkerByName toLowerCase fylkerData name).
Proof.
  split.
  - intros m [Hin Hp]%find_Some_elem_of.
    apply elem_of_filter_bool. split; [done|].
    rewrite orb_true_iff, !strictEquals_spec in Hp.
    rewrite orb_true_iff, !includes_spec.
    destruct Hp as [->| ->]; [left|right]; apply substring_refl.
  - intros c [Hin Hp]%find_Some_elem_of.
    apply elem_of_filter_bool. split; [done|].
    apply strictEquals_spec in Hp. rewrite includes_spec, Hp.
    apply substring_refl.
Qed.

Lemma name_lookup_in_search_witness :
  getKommuneByName asciiToLowerCase sampleKommuner (str "BERGEN")
  = Some bergen ∧
  bergen ∈ searchKommunerByName asciiToLowerCase sampleKommuner
             (str "BERGEN").
Proof.
  split; [reflexivity|].
  apply (proj1 (name_lookup_in_search asciiToLowerCase sampleFylker
                  sampleKommuner (str "BERGEN")) bergen).
  reflexivity.
Defined.

(** X17: when no two counties have the same name up to case, looking up
    the name of a county of the table returns that county, in whatever case
    the name is written. *)
Theorem getFylkeByName_round_trip
    (toLowerCase : jsstring → jsstring) (fylkerData : list Fylke)
    (c : Fylke) (name : jsstring) :
  NoDup ((λ fylke, toLowerCase (f_name fylke)) <$> fylkerData) →
  c ∈ fylkerData →
  toLowerCase name = toLowerCase (f_name c) →
  getFylkeByName toLowerCase fylkerData name = Some c.
Proof.
  intros Hnodup Hc Hname. unfold getFylkeByName. rewrite Hname.
  by apply (find_unique_key (λ fylke, toLowerCase (f_name fylke))).
Qed.

Lemma getFylkeByName_round_trip_witness :
  NoDup ((λ fylke, asciiToLowerCase (f_name fylke)) <$> sampleFylker) ∧
  mkFylke "46" "Vestland" ∈ sampleFylker ∧
  asciiToLowerCase (str "VESTLAND")
  = asciiToLowerCase (f_name (mkFylke "46" "Vestland")) ∧
  getFylkeByName asciiToLowerCase sampleFylker (str "VESTLAND")
  = Some (mkFylke "46" "Vestland").
Proof.
  assert (Hnodup : NoDup ((λ fylke, asciiToLowerCase (f_name fylke))
                            <$> sampleFylker))
    by (apply (bool_decide_unpack _); vm_compute; exact I).
  assert (Hin : mkFylke "46" "Vestland" ∈ sampleFylker)
    by (unfold sampleFylker; repeat constructor).
  split_and!; [exact Hnodup | exact Hin | reflexivity |].
  exact (getFylkeByName_round_trip asciiToLowerCase sampleFylker _
           (str "VESTLAND") Hnodup Hin eq_refl).
Defined.

(** X18: the name of a municipality of the table, primary or alternate and
    in whatever case, is never a miss for [getKommuneByName]: some record
    with that name up to case is returned. *)
Theorem getKommuneByName_own_name
    (toLowerCase : jsstring → jsstring) (kommunerData : list Kommune)
    (m : Kommune) (name : jsstring) :
  m ∈ kommunerData →
  toLowerCase name = toLowerCase (k_name m) ∨
  toLowerCase name = toLowerCase (k_name_no m) →
  ∃ m', getKommuneByName toLowerCase kommunerData name = Some m' ∧
        (toLowerCase (k_name m') = toLowerCase name ∨
         toLowerCase (k_name_no m') = toLowerCase name).
Proof.
  intros Hm Hname. unfold getKommuneByName.
  destruct (List.find _ kommunerData) as [m'|] eqn:Hfind.
  - exists m'. split; [done|].
    apply find_Some_elem_of in Hfind as [_ Hp].
    by rewrite orb_true_iff, !strictEquals_spec in Hp.
  - rewrite find_None_iff in Hfind. specialize (Hfind m Hm).
    apply not_true_iff_false in Hfind. destruct Hfind.
    rewrite orb_true_iff, !strictEquals_spec.
    destruct Hname as [->| ->]; auto.
Qed.

Lemma getKommuneByName_own_name_witness :
  sauda ∈ sampleKommuner ∧
  (asciiToLowerCase (str "SAUDA") = asciiToLowerCase (k_name sauda) ∨
   asciiToLowerCase (str "SAUDA") = asciiToLowerCase (k_name_no sauda)) ∧
  ∃ m', getKommuneByName asciiToLowerCase sampleKommuner (str "SAUDA")
        = Some m' ∧
        (asciiToLowerCase (k_name m') = asciiToLowerCase (str "SAUDA") ∨
         asciiToLowerCase (k_name_no m') = asciiToLowerCase (str "SAUDA")).
Proof.
  assert (Hin : sauda ∈ sampleKommuner)
    by (unfold sampleKommuner; repeat constructor).
  assert (Hname :
    asciiToLowerCase (str "SAUDA") = asciiToLowerCase (k_name sauda) ∨
    asciiToLowerCase (str "SAUDA") = asciiToLowerCase (k_name_no sauda))
    by (left; reflexivity).
  split_and!; [exact Hin | exact Hname |].
  exact (getKommuneByName_own_name asciiToLowerCase sampleKommuner sauda
           (str "SAUDA") Hin Hname).
Defined.
